(** * extract-partitions.py: the dump driver and its resume logic

    A shallow embedding of [dump_partitions] and of the part of [main]
    that calls it (src/extract-partitions.py), followed by the properties
    of the dump planner, of the resume reconciler and of whole runs.

    Python integers are unbounded, so every integer is a [Z].  The module
    [partitions] is not part of the sources: its constant [BLOCK_SIZE] and
    its function [dump_partition] are parameters of the driver, and the
    list returned by [get_partitions] is the driver's [table] argument. *)

From Stdlib Require Import ZArith Lia Ascii String.
From stdpp Require Import gmap strings pretty list.

Local Open Scope Z_scope.

(** ** Data model *)

(** One entry of [diskinfo.gpt.partitions]; the driver reads the four
    fields [index], [name], [first_lba] and [last_lba]. *)
Record partition := Partition {
  index : Z;
  name : string;
  first_lba : Z;
  last_lba : Z
}.

(** The errors [os.stat] reports; all of them are [OSError] in Python. *)
Inductive errno := ENOENT | EACCES | ENOTDIR | ELOOP | EIO.

(** Exceptions: the [OSError] family, and a failure of the device channel,
    which is not an [OSError]. *)
Inductive exn :=
| OSError (e : errno)
| TransportError.

Inductive result (A : Type) :=
| Ok (a : A)
| Raise (e : exn).
Arguments Ok {A} a.
Arguments Raise {A} e.

(** What a path of the output directory resolves to: a regular file with
    its bytes, or a path whose resolution fails with [e] (a component that
    is not searchable, not a directory, a symlink loop, ...).  A path that
    is not in the map does not exist. *)
Inductive node :=
| File (data : list Byte.byte)
| Unreachable (e : errno).

(** The state the driver and the executor act on: the files, and the log
    of the reads issued on the device channel, as (offset, length). *)
Record io := IO {
  fs : gmap string node;
  reads : list (Z * Z)
}.

(** ** Reporting *)

(** The arguments of the format strings of lines 45-73 and 98-100.  The
    batch and the interactive text of one decision differ, the decision
    and its arguments do not. *)
Inductive message :=
| IgnoringLarge (part_label part_name : string) (size_k : Z)
| UnexpectedSize (out_path : string) (current_k part_k : Z)
| SkippingExisting (part_label part_name out_path : string)
| Dumping (part_label part_name out_path : string) (part_size : Z)
| AllFinished.

Inductive sink := Stdout | LoggerInfo | LoggerWarn.

Record event := Report { where_ : sink; what : message }.

(** [print(...)] in batch mode, [_logger.info]/[_logger.warn] otherwise.
    Writing to either sink is taken to succeed. *)
Definition reporter (batch : bool) (interactive : sink) : sink :=
  if batch then Stdout else interactive.

(** The text of a report, as the format strings build it. *)
Definition render (e : event) : string :=
  match where_ e, what e with
  | Stdout, IgnoringLarge l n k =>
      "#Ignoring large partition " +:+ l +:+ " (" +:+ n +:+ ") of size "
        +:+ pretty k +:+ "K"
  | _, IgnoringLarge l n k =>
      "Ignoring large partition " +:+ l +:+ " (" +:+ n +:+ ") of size "
        +:+ pretty k +:+ "K"
  | Stdout, UnexpectedSize p c k =>
      "#" +:+ p +:+ ": unexpected size " +:+ pretty c +:+ "K, larger than "
        +:+ pretty k +:+ "K"
  | _, UnexpectedSize p c k =>
      p +:+ ": unexpected size " +:+ pretty c +:+ "K, larger than "
        +:+ pretty k +:+ "K"
  | Stdout, SkippingExisting l n _ =>
      "#Skipping already existing partition " +:+ l +:+ " (" +:+ n +:+ ")"
  | _, SkippingExisting l n p =>
      "Skipping partition " +:+ l +:+ " (" +:+ n +:+ "), already found at "
        +:+ p
  | Stdout, Dumping l n _ _ => "#" +:+ l +:+ " (" +:+ n +:+ ")"
  | _, Dumping l n p s =>
      "Dumping partition " +:+ l +:+ " (" +:+ n +:+ ") to " +:+ p +:+ " ("
        +:+ pretty s +:+ " bytes)"
  | Stdout, AllFinished => "#All finished"
  | _, AllFinished => "All finished!"
  end.

(** The decision a report stands for (the driver reports one per
    partition). *)
Inductive decision := skipped_large | abort_oversized | skip_complete | dumped.

Definition decision_of (m : message) : option decision :=
  match m with
  | IgnoringLarge _ _ _ => Some skipped_large
  | UnexpectedSize _ _ _ => Some abort_oversized
  | SkippingExisting _ _ _ => Some skip_complete
  | Dumping _ _ _ _ => Some dumped
  | AllFinished => None
  end.

(** ** The monad of the driver: state, exceptions and a report log *)

Definition M (A : Type) : Type := io -> result A * io * list event.

Definition ret {A} (a : A) : M A := fun w => (Ok a, w, []).

Definition bind {A B} (m : M A) (k : A -> M B) : M B := fun w =>
  match m w with
  | (Ok a, w1, e1) => let '(r, w2, e2) := k a w1 in (r, w2, e1 ++ e2)
  | (Raise x, w1, e1) => (Raise x, w1, e1)
  end.

Declare Scope driver_scope.
Delimit Scope driver_scope with driver.
Notation "x <- m ;; k" := (bind m (fun x => k))
  (at level 100, m at next level, right associativity) : driver_scope.
Notation "m ;; k" := (bind m (fun _ => k))
  (at level 100, right associativity) : driver_scope.

Definition report (s : sink) (m : message) : M unit :=
  fun w => (Ok tt, w, [Report s m]).

(** [try: body except OSError: handler]. *)
Definition try_except_OSError {A} (body handler : M A) : M A := fun w =>
  match body w with
  | (Raise (OSError _), w1, e1) =>
      let '(r, w2, e2) := handler w1 in (r, w2, e1 ++ e2)
  | other => other
  end.

(** A call of a function that acts on the files and the device only. *)
Definition call {A} (f : io -> result A * io) : M A :=
  fun w => let '(r, w1) := f w in (r, w1, []).

(** ** Python and [os.path] primitives *)

(** Truth value of an [int]. *)
Definition truthy (z : Z) : bool := negb (z =? 0).

(** [x / 1024] under [%d]: the quotient truncated towards zero (the
    division is exact in floating point below 2^53 bytes). *)
Definition kib (z : Z) : Z := Z.quot z 1024.

Definition startswith_sep (s : string) : bool :=
  match s with
  | String c _ => Ascii.eqb c ("/"%char)
  | EmptyString => false
  end.

Fixpoint endswith_sep (s : string) : bool :=
  match s with
  | EmptyString => false
  | String c EmptyString => Ascii.eqb c ("/"%char)
  | String _ rest => endswith_sep rest
  end.

(** [os.path.join(a, b)] of posixpath. *)
Definition path_join (a b : string) : string :=
  if startswith_sep b then b
  else if String.eqb a "" || endswith_sep a then a +:+ b
  else a +:+ "/" +:+ b.

(** [os.path.getsize(path)]: the size of the file, or the [OSError] of the
    failed [stat]. *)
Definition getsize (path : string) : M Z := fun w =>
  match fs w !! path with
  | Some (File data) => (Ok (Z.of_nat (length data)), w, [])
  | Some (Unreachable e) => (Raise (OSError e), w, [])
  | None => (Raise (OSError ENOENT), w, [])
  end.

(** ** Command line *)

(** The options of the parser that reach the driver. *)
Record args := Args {
  arg_outdir : string;
  arg_max_size : Z;
  arg_batch : bool
}.


(** ** dump_partitions *)

(** How an iteration leaves the [try] block of lines 51-67: by one of its
    [continue] statements, or by falling through to line 69. *)
Inductive flow := Continue | FallThrough.

Section Driver.

(** [partitions.BLOCK_SIZE]. *)
Variable BLOCK_SIZE : Z.

(** [partitions.dump_partition(comm, disk_fd, local_path, part_offset,
    part_size, batch)]; [comm] and [disk_fd] name the device channel,
    which is part of [io]. *)
Variable dump_partition : string -> Z -> Z -> bool -> io -> result unit * io.

Definition part_offset (part : partition) : Z :=
  first_lba part * BLOCK_SIZE.

Definition part_size (part : partition) : Z :=
  ((last_lba part + 1) - first_lba part) * BLOCK_SIZE.

Definition part_label (part : partition) : string :=
  "/dev/mmcblk0p" +:+ pretty (index part).

Definition out_path (outdir : string) (part : partition) : string :=
  path_join outdir (name part +:+ ".bin").

(** Line 43: [max_size and part_size > max_size]. *)
Definition exceeds_ceiling (max_size : Z) (part : partition) : bool :=
  truthy max_size && (part_size part >? max_size).

(** The body of the [for] loop, lines 39-75. *)
Definition loop_body (outdir : string) (max_size : Z) (batch : bool)
    (part : partition) : M unit :=
  (if exceeds_ceiling max_size part then
     report (reporter batch LoggerInfo)
       (IgnoringLarge (part_label part) (name part) (kib (part_size part)))
   else
     fl <- try_except_OSError
             (current_size <- getsize (out_path outdir part) ;;
              if current_size >? part_size part then
                report (reporter batch LoggerWarn)
                  (UnexpectedSize (out_path outdir part) (kib current_size)
                     (kib (part_size part))) ;;
                ret Continue
              else if current_size =? part_size part then
                report (reporter batch LoggerInfo)
                  (SkippingExisting (part_label part) (name part)
                     (out_path outdir part)) ;;
                ret Continue
              else ret FallThrough)
             (ret FallThrough) ;;
     match fl with
     | Continue => ret tt
     | FallThrough =>
         report (reporter batch LoggerInfo)
           (Dumping (part_label part) (name part) (out_path outdir part)
              (part_size part)) ;;
         call (dump_partition (out_path outdir part) (part_offset part)
                 (part_size part) batch)
     end)%driver.

(** Lines 36-75; [table] is [diskinfo.gpt.partitions]. *)
Fixpoint dump_partitions (outdir : string) (max_size : Z) (batch : bool)
    (table : list partition) : M unit :=
  match table with
  | [] => ret tt
  | part :: rest =>
      (loop_body outdir max_size batch part ;;
       dump_partitions outdir max_size batch rest)%driver
  end.

(** ** main *)

(** Lines 95-100.  Opening the device (lines 85-94) yields the table and
    is outside the sources; [os.makedirs] only makes the directory. *)
Definition main (a : args) (table : list partition) : M unit :=
  (dump_partitions (arg_outdir a) (arg_max_size a * 1024) (arg_batch a)
     table ;;
   report (reporter (arg_batch a) LoggerInfo) AllFinished)%driver.

End Driver.

(** ** The executor *)

(** The bytes a read of [len] bytes at [offset] delivers before the device
    runs out of data; a negative offset or length delivers nothing. *)
Definition device_data (disk : list Byte.byte) (offset len : Z)
    : list Byte.byte :=
  if (offset <? 0) || (len <? 0) then []
  else take (Z.to_nat len) (drop (Z.to_nat offset) disk).

(** Modelled from the spec: [partitions.dump_partition] is missing from the
    sources.  Sections 4.3 and 6 of the specification: the destination is
    created or truncated, exactly [len] bytes starting at [offset] are read
    from the device channel or the read fails, and a transfer that fails
    leaves a file shorter than [len].  A destination that cannot be opened
    raises the error of the file system, before any read.  The batch flag
    selects the progress reports only. *)
Definition dump_partition_model (disk : list Byte.byte) (local_path : string)
    (offset len : Z) (batch : bool) (w : io) : result unit * io :=
  match fs w !! local_path with
  | Some (Unreachable e) => (Raise (OSError e), w)
  | _ =>
      let data := device_data disk offset len in
      let w1 := {| fs := <[local_path := File data]> (fs w);
                   reads := reads w ++ [(offset, len)] |} in
      if (0 <=? offset) && (Z.of_nat (length data) =? len)
      then (Ok tt, w1)
      else (Raise TransportError, w1)
  end.

(** ** Vocabulary of the statements *)

(** The decision of one iteration: that of its first report. *)
Definition step_decision {A} (x : result A * io * list event)
    : option decision :=
  match snd x with
  | [] => None
  | e :: _ => decision_of (what e)
  end.

(** The size of the existing output file, a missing file counting as 0;
    [None] when the path cannot be resolved. *)
Definition existing_size (w : io) (path : string) : option Z :=
  match fs w !! path with
  | None => Some 0
  | Some (File data) => Some (Z.of_nat (length data))
  | Some (Unreachable _) => None
  end.

(** A report of any decision but the dump. *)
Definition reports_no_dump (ev : event) : Prop :=
  decision_of (what ev) <> Some dumped.

Definition run_fails {A} (x : result A * io * list event) : Prop :=
  match fst (fst x) with
  | Raise _ => True
  | Ok _ => False
  end.

Section Reports.

Variable BLOCK_SIZE : Z.
Variable dump_partition : string -> Z -> Z -> bool -> io -> result unit * io.

Definition large_report (batch : bool) (part : partition) : event :=
  Report (reporter batch LoggerInfo)
    (IgnoringLarge (part_label part) (name part)
       (kib (part_size BLOCK_SIZE part))).

Definition oversized_report (outdir : string) (batch : bool)
    (part : partition) (current_size : Z) : event :=
  Report (reporter batch LoggerWarn)
    (UnexpectedSize (out_path outdir part) (kib current_size)
       (kib (part_size BLOCK_SIZE part))).

Definition complete_report (outdir : string) (batch : bool)
    (part : partition) : event :=
  Report (reporter batch LoggerInfo)
    (SkippingExisting (part_label part) (name part) (out_path outdir part)).

Definition dumping_report (outdir : string) (batch : bool)
    (part : partition) : event :=
  Report (reporter batch LoggerInfo)
    (Dumping (part_label part) (name part) (out_path outdir part)
       (part_size BLOCK_SIZE part)).

(** Lines 69-75: the report, then the executor on the whole range of the
    partition. *)
Definition dump_fresh (outdir : string) (batch : bool) (part : partition)
    (w : io) : result unit * io * list event :=
  let '(r, w1) :=
    dump_partition (out_path outdir part) (part_offset BLOCK_SIZE part)
      (part_size BLOCK_SIZE part) batch w in
  (r, w1, [dumping_report outdir batch part]).

(** The executor's side of an idle second run: a transfer that returns
    has replaced the destination by a file of exactly [len] bytes and has
    touched no other path. *)
Definition completes_transfers : Prop :=
  forall local_path offset len batch w w1,
    dump_partition local_path offset len batch w = (Ok tt, w1) ->
    exists data,
      fs w1 = <[local_path := File data]> (fs w)
      /\ Z.of_nat (length data) = len.

(** The executor does nothing with the batch flag that shows in the files
    or on the device channel. *)
Definition batch_blind : Prop :=
  forall local_path offset len b1 b2 w,
    dump_partition local_path offset len b1 w
    = dump_partition local_path offset len b2 w.

(** A partition the driver has nothing left to do for: it is above the
    ceiling, or its output file has at least its byte length. *)
Definition settled (outdir : string) (max_size : Z) (w : io)
    (part : partition) : Prop :=
  exceeds_ceiling BLOCK_SIZE max_size part = true
  \/ exists data,
       fs w !! out_path outdir part = Some (File data)
       /\ part_size BLOCK_SIZE part <= Z.of_nat (length data).

(** The reports an iteration over [part] can make. *)
Definition report_for (outdir : string) (batch : bool) (part : partition)
    (ev : event) : Prop :=
  ev = large_report batch part
  \/ (exists current_size, ev = oversized_report outdir batch part current_size)
  \/ ev = complete_report outdir batch part
  \/ ev = dumping_report outdir batch part.

End Reports.

(** ** Sample runs *)

Definition recovery : partition :=
  {| index := 7; name := "recovery"; first_lba := 100; last_lba := 199 |}.

Definition no_files : io := {| fs := ∅; reads := [] |}.

Definition zeros (n : nat) : list Byte.byte := replicate n Byte.x00.

(** A two-block partition, for blocks of 4 bytes. *)
Definition small : partition :=
  {| index := 1; name := "a"; first_lba := 1; last_lba := 2 |}.

(** A descriptor whose bounds are the wrong way round. *)
Definition inverted : partition :=
  {| index := 3; name := "bad"; first_lba := 200; last_lba := 100 |}.

Definition with_file (path : string) (n : node) : io :=
  {| fs := {[ path := n ]}; reads := [] |}.

Definition sample_disk : list Byte.byte := zeros 16.

Example part_label_recovery : part_label recovery = "/dev/mmcblk0p7".
Proof. reflexivity. Qed.

Example out_path_recovery :
  out_path "out" recovery = "out/recovery.bin"
  /\ out_path "out/" recovery = "out/recovery.bin"
  /\ out_path "" recovery = "recovery.bin".
Proof. repeat split. Qed.

Example render_dumping_batch :
  render (dumping_report 512 "out" true recovery) = "#/dev/mmcblk0p7 (recovery)".
Proof. reflexivity. Qed.

Example render_dumping_log :
  render (dumping_report 512 "out" false recovery)
  = "Dumping partition /dev/mmcblk0p7 (recovery) to out/recovery.bin (51200 bytes)".
Proof. vm_compute. reflexivity. Qed.

Example render_oversized_log :
  render (oversized_report 512 "out" false recovery 60000)
  = "out/recovery.bin: unexpected size 58K, larger than 50K".
Proof. vm_compute. reflexivity. Qed.

(** * Properties *)

(** ** The iteration, case by case *)

Section Iteration.

Variable BLOCK_SIZE : Z.
Variable dump_partition : string -> Z -> Z -> bool -> io -> result unit * io.

Local Abbreviation step := (loop_body BLOCK_SIZE dump_partition).
Local Abbreviation run := (dump_partitions BLOCK_SIZE dump_partition).
Local Abbreviation fresh := (dump_fresh BLOCK_SIZE dump_partition).
Local Abbreviation size_of := (part_size BLOCK_SIZE).
Local Abbreviation too_large := (exceeds_ceiling BLOCK_SIZE).

(** The four ways through lines 43-75 in terms of the state. *)
Lemma loop_body_cases outdir max_size batch part w :
  step outdir max_size batch part w =
  if too_large max_size part
  then (Ok tt, w, [large_report BLOCK_SIZE batch part])
  else match fs w !! out_path outdir part with
       | Some (File data) =>
           if Z.of_nat (length data) >? size_of part
           then (Ok tt, w,
                 [oversized_report BLOCK_SIZE outdir batch part
                    (Z.of_nat (length data))])
           else if Z.of_nat (length data) =? size_of part
           then (Ok tt, w, [complete_report outdir batch part])
           else fresh outdir batch part w
       | _ => fresh outdir batch part w
       end.
Proof.
  unfold loop_body.
  destruct (too_large max_size part); [reflexivity |].
  unfold bind, try_except_OSError, getsize, dump_fresh, call.
  destruct (fs w !! out_path outdir part) as [[data | e] |]; simpl.
  - destruct (Z.of_nat (length data) >? size_of part); simpl;
      [reflexivity |].
    destruct (Z.of_nat (length data) =? size_of part); simpl;
      [reflexivity |].
    destruct (dump_partition _ _ _ _ w); reflexivity.
  - destruct (dump_partition _ _ _ _ w); reflexivity.
  - destruct (dump_partition _ _ _ _ w); reflexivity.
Qed.

Lemma dump_partitions_cons outdir max_size batch part rest w :
  run outdir max_size batch (part :: rest) w =
  match step outdir max_size batch part w with
  | (Ok _, w1, e1) =>
      let '(r, w2, e2) := run outdir max_size batch rest w1 in
      (r, w2, e1 ++ e2)
  | (Raise x, w1, e1) => (Raise x, w1, e1)
  end.
Proof. reflexivity. Qed.

Lemma exceeds_ceiling_spec max_size part :
  too_large max_size part = true <->
  max_size <> 0 /\ max_size < size_of part.
Proof.
  unfold exceeds_ceiling, truthy.
  rewrite andb_true_iff, negb_true_iff, Z.eqb_neq, Z.gtb_ltb, Z.ltb_lt.
  reflexivity.
Qed.

Lemma part_size_pos part :
  first_lba part <= last_lba part -> 0 < BLOCK_SIZE -> 0 < size_of part.
Proof. intros Hlba Hbs. unfold part_size. nia. Qed.

Lemma part_size_nonpos part :
  last_lba part < first_lba part -> 0 < BLOCK_SIZE -> size_of part <= 0.
Proof. intros Hlba Hbs. unfold part_size. nia. Qed.

Lemma step_decision_fresh outdir batch part w :
  step_decision (fresh outdir batch part w) = Some dumped.
Proof.
  unfold dump_fresh. destruct (dump_partition _ _ _ _ w). reflexivity.
Qed.

Lemma step_decision_cases outdir max_size batch part w :
  step_decision (step outdir max_size batch part w) =
  Some (if too_large max_size part then skipped_large
        else match fs w !! out_path outdir part with
             | Some (File data) =>
                 if Z.of_nat (length data) >? size_of part
                 then abort_oversized
                 else if Z.of_nat (length data) =? size_of part
                 then skip_complete else dumped
             | _ => dumped
             end).
Proof.
  rewrite loop_body_cases.
  destruct (too_large max_size part); [reflexivity |].
  destruct (fs w !! out_path outdir part) as [[data | e] |];
    try apply step_decision_fresh.
  destruct (Z.of_nat (length data) >? size_of part); [reflexivity |].
  destruct (Z.of_nat (length data) =? size_of part); [reflexivity |].
  apply step_decision_fresh.
Qed.

Lemma skipped_large_iff outdir max_size batch part w :
  step_decision (step outdir max_size batch part w) = Some skipped_large
  <-> max_size <> 0 /\ max_size < size_of part.
Proof.
  rewrite <- exceeds_ceiling_spec, step_decision_cases.
  destruct (too_large max_size part); [tauto |].
  split; [| discriminate].
  destruct (fs w !! out_path outdir part) as [[data | e] |];
    try discriminate.
  destruct (Z.of_nat (length data) >? size_of part); [discriminate |].
  destruct (Z.of_nat (length data) =? size_of part); discriminate.
Qed.

(** ** The resume reconciler *)

(** C1. For a planned partition (one that passed the ceiling) of a
    consistent descriptor, the iteration is decided by the size [s] of the
    existing output file, a missing file counting as 0, against the byte
    length [L]: [s > L] reports the unexpected size and leaves the state
    alone, [s = L] reports the complete file and leaves the state alone,
    [s < L] reports the dump and runs the executor on the whole range
    [(part_offset, part_size)] from the unchanged state. *)
Theorem C1_reconcile_by_size outdir max_size batch part w s :
  first_lba part <= last_lba part ->
  0 < BLOCK_SIZE ->
  too_large max_size part = false ->
  existing_size w (out_path outdir part) = Some s ->
  step outdir max_size batch part w =
  match s ?= size_of part with
  | Gt => (Ok tt, w, [oversized_report BLOCK_SIZE outdir batch part s])
  | Eq => (Ok tt, w, [complete_report outdir batch part])
  | Lt => fresh outdir batch part w
  end.
Proof.
  intros Hlba Hbs Hplan Hs.
  pose proof (part_size_pos part Hlba Hbs) as Hpos.
  rewrite loop_body_cases, Hplan.
  unfold existing_size in Hs.
  destruct (fs w !! out_path outdir part) as [[data | e] |];
    [ | discriminate | ]; injection Hs as <-.
  - destruct (Z.compare_spec (Z.of_nat (length data)) (size_of part))
      as [Heq | Hlt | Hgt].
    + rewrite Heq, Z.gtb_ltb, Z.ltb_irrefl, Z.eqb_refl. reflexivity.
    + rewrite Z.gtb_ltb.
      destruct (Z.ltb_spec (size_of part) (Z.of_nat (length data))); [lia |].
      destruct (Z.eqb_spec (Z.of_nat (length data)) (size_of part)); [lia |].
      reflexivity.
    + rewrite Z.gtb_ltb.
      destruct (Z.ltb_spec (size_of part) (Z.of_nat (length data))); [| lia].
      reflexivity.
  - destruct (Z.compare_spec 0 (size_of part)); try lia. reflexivity.
Qed.

(** ** The dump planner *)

(** C2. The iteration takes the skipped-large decision exactly when the
    ceiling is not 0 and the byte length exceeds it; it then only reports,
    leaving files and device alone; with ceiling 0 it never takes it. *)
Theorem C2_ceiling_skip outdir max_size batch part w :
  (step_decision (step outdir max_size batch part w) = Some skipped_large
   <-> max_size <> 0 /\ max_size < size_of part)
  /\ (max_size <> 0 /\ max_size < size_of part ->
      step outdir max_size batch part w
      = (Ok tt, w, [large_report BLOCK_SIZE batch part]))
  /\ step_decision (step outdir 0 batch part w) <> Some skipped_large.
Proof.
  split; [| split].
  - apply skipped_large_iff.
  - intros Hskip. apply exceeds_ceiling_spec in Hskip.
    rewrite loop_body_cases, Hskip. reflexivity.
  - rewrite skipped_large_iff. tauto.
Qed.

(** ** Errors of the size probe, inconsistent descriptors *)

(** C4, as the code has it. Whatever [OSError] the size probe raises, the
    missing file or any other, the handler of line 67 swallows it: the
    iteration is the fresh dump, exactly as for a missing file. *)
Theorem C4_probe_error_swallowed outdir max_size batch part w e :
  too_large max_size part = false ->
  getsize (out_path outdir part) w = (Raise (OSError e), w, []) ->
  step outdir max_size batch part w = fresh outdir batch part w.
Proof.
  intros Hplan Hprobe.
  rewrite loop_body_cases, Hplan.
  unfold getsize in Hprobe.
  destruct (fs w !! out_path outdir part) as [[data | e'] |];
    [discriminate | reflexivity | reflexivity].
Qed.

(** C5, as the code has it. A descriptor with [last_lba < first_lba] is
    not rejected. Its byte length is at most 0 and is used as computed, and
    the descriptor passes any ceiling that is not negative: an existing
    file is reported as complete (both sizes 0) or as unexpectedly large
    and the state is left alone, and otherwise the executor runs with the
    length that is at most 0. *)
Theorem C5_inconsistent_descriptor outdir max_size batch part w :
  last_lba part < first_lba part ->
  0 < BLOCK_SIZE ->
  0 <= max_size ->
  size_of part <= 0
  /\ step outdir max_size batch part w =
     match fs w !! out_path outdir part with
     | Some (File data) =>
         (Ok tt, w,
          [if Z.of_nat (length data) =? size_of part
           then complete_report outdir batch part
           else oversized_report BLOCK_SIZE outdir batch part
                  (Z.of_nat (length data))])
     | _ => fresh outdir batch part w
     end.
Proof.
  intros Hlba Hbs Hmax.
  pose proof (part_size_nonpos part Hlba Hbs) as Hsize.
  split; [exact Hsize |].
  rewrite loop_body_cases.
  assert (Hplan : too_large max_size part = false).
  { apply not_true_is_false. rewrite exceeds_ceiling_spec. lia. }
  rewrite Hplan.
  destruct (fs w !! out_path outdir part) as [[data | e] |];
    try reflexivity.
  rewrite Z.gtb_ltb.
  destruct (Z.ltb_spec (size_of part) (Z.of_nat (length data))) as [Hlt | Hge].
  - destruct (Z.eqb_spec (Z.of_nat (length data)) (size_of part)); [lia |].
    reflexivity.
  - destruct (Z.eqb_spec (Z.of_nat (length data)) (size_of part)); [| lia].
    reflexivity.
Qed.

(** ** Frame properties of the skipping decisions *)

(** C7, as the code has it. For a partition that passed the ceiling and
    whose output file is larger than its byte length, the iteration leaves
    files and device as they are and reports the unexpected size with both
    sizes, and the run goes on with the next partition from that same
    state. *)
Theorem C7_oversized_left_alone outdir max_size batch part rest w data :
  too_large max_size part = false ->
  fs w !! out_path outdir part = Some (File data) ->
  size_of part < Z.of_nat (length data) ->
  step outdir max_size batch part w
  = (Ok tt, w,
     [oversized_report BLOCK_SIZE outdir batch part (Z.of_nat (length data))])
  /\ run outdir max_size batch (part :: rest) w
     = (let '(r, w1, e) := run outdir max_size batch rest w in
        (r, w1,
         oversized_report BLOCK_SIZE outdir batch part
           (Z.of_nat (length data)) :: e)).
Proof.
  intros Hplan Hfile Hlarger.
  assert (Hstep : step outdir max_size batch part w
    = (Ok tt, w,
       [oversized_report BLOCK_SIZE outdir batch part
          (Z.of_nat (length data))])).
  { rewrite loop_body_cases, Hplan, Hfile, Z.gtb_ltb.
    destruct (Z.ltb_spec (size_of part) (Z.of_nat (length data))); [| lia].
    reflexivity. }
  split; [exact Hstep |].
  rewrite dump_partitions_cons, Hstep.
  destruct (run outdir max_size batch rest w) as [[r w1] e]. reflexivity.
Qed.

(** C8, as the code has it. For a partition whose output file has exactly
    its byte length, the iteration returns with files and device
    unchanged, so no read was issued and nothing was written, and with one
    report; the run goes on with the next partition from that same state.
    The report is the complete file for a partition within the ceiling;
    a partition above the ceiling is skipped before its file is looked at
    and the report is the one of the ceiling. *)
Theorem C8_complete_no_io outdir max_size batch part rest w data :
  fs w !! out_path outdir part = Some (File data) ->
  Z.of_nat (length data) = size_of part ->
  step outdir max_size batch part w
  = (Ok tt, w,
     [if too_large max_size part then large_report BLOCK_SIZE batch part
      else complete_report outdir batch part])
  /\ run outdir max_size batch (part :: rest) w
     = (let '(r, w1, e) := run outdir max_size batch rest w in
        (r, w1,
         (if too_large max_size part then large_report BLOCK_SIZE batch part
          else complete_report outdir batch part) :: e)).
Proof.
  intros Hfile Hsize.
  assert (Hstep : step outdir max_size batch part w
    = (Ok tt, w,
       [if too_large max_size part then large_report BLOCK_SIZE batch part
        else complete_report outdir batch part])).
  { rewrite loop_body_cases.
    destruct (too_large max_size part); [reflexivity |].
    rewrite Hfile, Hsize, Z.gtb_ltb, Z.ltb_irrefl, Z.eqb_refl. reflexivity. }
  split; [exact Hstep |].
  rewrite dump_partitions_cons, Hstep.
  destruct (run outdir max_size batch rest w) as [[r w1] e]. reflexivity.
Qed.

(** ** The batch flag *)

Lemma loop_body_batch outdir max_size part w b1 b2 :
  batch_blind dump_partition ->
  let x1 := step outdir max_size b1 part w in
  let x2 := step outdir max_size b2 part w in
  fst x1 = fst x2 /\ map what (snd x1) = map what (snd x2).
Proof.
  intros Hblind. cbv zeta. rewrite !loop_body_cases.
  assert (Hfresh :
    fst (fresh outdir b1 part w) = fst (fresh outdir b2 part w)
    /\ map what (snd (fresh outdir b1 part w))
       = map what (snd (fresh outdir b2 part w))).
  { unfold dump_fresh. rewrite (Hblind _ _ _ b1 b2).
    destruct (dump_partition _ _ _ b2 w). split; reflexivity. }
  destruct (too_large max_size part); [split; reflexivity |].
  destruct (fs w !! out_path outdir part) as [[data | e] |];
    try exact Hfresh.
  destruct (Z.of_nat (length data) >? size_of part); [split; reflexivity |].
  destruct (Z.of_nat (length data) =? size_of part); [split; reflexivity |].
  exact Hfresh.
Qed.

(** C9. With an executor that does nothing observable with the batch
    flag, two runs that differ in the batch flag only end with the same
    result and the same files and device reads, and report the same
    messages, hence the same decisions, in the same order. *)
Theorem C9_batch_only_reporting outdir max_size table w b1 b2 :
  batch_blind dump_partition ->
  let x1 := run outdir max_size b1 table w in
  let x2 := run outdir max_size b2 table w in
  fst x1 = fst x2 /\ map what (snd x1) = map what (snd x2).
Proof.
  intros Hblind. cbv zeta. revert w.
  induction table as [| part rest IH]; intros w; [split; reflexivity |].
  rewrite !dump_partitions_cons.
  destruct (loop_body_batch outdir max_size part w b1 b2 Hblind)
    as [Hio Hmsg].
  destruct (step outdir max_size b1 part w) as [[r1 w1] e1].
  destruct (step outdir max_size b2 part w) as [[r2 w2] e2].
  simpl in Hio, Hmsg. injection Hio as -> ->.
  destruct r2 as [[] | x]; [| split; [reflexivity | exact Hmsg]].
  specialize (IH w2).
  destruct (run outdir max_size b1 rest w2) as [[r1' w1'] e1'].
  destruct (run outdir max_size b2 rest w2) as [[r2' w2'] e2'].
  simpl in IH |- *. destruct IH as [Hio' Hmsg'].
  split; [exact Hio' |]. rewrite !map_app. congruence.
Qed.

End Iteration.

(** ** Running twice *)

Section TwoRuns.

Variable BLOCK_SIZE : Z.
Variable dump_partition : string -> Z -> Z -> bool -> io -> result unit * io.

Local Abbreviation step := (loop_body BLOCK_SIZE dump_partition).
Local Abbreviation run := (dump_partitions BLOCK_SIZE dump_partition).
Local Abbreviation fresh := (dump_fresh BLOCK_SIZE dump_partition).
Local Abbreviation size_of := (part_size BLOCK_SIZE).
Local Abbreviation too_large := (exceeds_ceiling BLOCK_SIZE).

(** A settled partition costs one report and nothing else, whatever the
    executor. *)
Lemma settled_step outdir max_size batch part w :
  settled BLOCK_SIZE outdir max_size w part ->
  exists ev,
    reports_no_dump ev
    /\ forall exec,
         loop_body BLOCK_SIZE exec outdir max_size batch part w
         = (Ok tt, w, [ev]).
Proof.
  intros [Hlarge | (data & Hfile & Hsize)].
  - exists (large_report BLOCK_SIZE batch part). split; [discriminate |].
    intros exec. rewrite loop_body_cases, Hlarge. reflexivity.
  - destruct (too_large max_size part) eqn:Hlarge.
    + exists (large_report BLOCK_SIZE batch part). split; [discriminate |].
      intros exec. rewrite loop_body_cases, Hlarge. reflexivity.
    + destruct (Z.ltb_spec (size_of part) (Z.of_nat (length data)))
        as [Hlt | Hge].
      * exists (oversized_report BLOCK_SIZE outdir batch part
                  (Z.of_nat (length data))).
        split; [discriminate |].
        intros exec. rewrite loop_body_cases, Hlarge, Hfile, Z.gtb_ltb.
        destruct (Z.ltb_spec (size_of part) (Z.of_nat (length data)));
          [reflexivity | lia].
      * exists (complete_report outdir batch part).
        split; [discriminate |].
        intros exec. rewrite loop_body_cases, Hlarge, Hfile, Z.gtb_ltb.
        destruct (Z.ltb_spec (size_of part) (Z.of_nat (length data)));
          [lia |].
        destruct (Z.eqb_spec (Z.of_nat (length data)) (size_of part));
          [reflexivity | lia].
Qed.

Lemma settled_run outdir max_size batch table w :
  Forall (settled BLOCK_SIZE outdir max_size w) table ->
  exists e,
    Forall reports_no_dump e
    /\ forall exec,
         dump_partitions BLOCK_SIZE exec outdir max_size batch table w
         = (Ok tt, w, e).
Proof.
  induction 1 as [| part rest Hpart _ IH].
  - exists []. split; [constructor | reflexivity].
  - destruct (settled_step outdir max_size batch part w Hpart)
      as (ev & Hev & Hstep).
    destruct IH as (e & He & Hrun).
    exists (ev :: e). split; [constructor; assumption |].
    intros exec. rewrite dump_partitions_cons, Hstep, Hrun. reflexivity.
Qed.

Section Completed.

Hypothesis contract : completes_transfers dump_partition.

(** A fresh dump that returns settles its partition and unsettles none. *)
Lemma fresh_settles outdir max_size batch part w w1 e :
  fresh outdir batch part w = (Ok tt, w1, e) ->
  (forall data, fs w !! out_path outdir part = Some (File data) ->
     Z.of_nat (length data) < size_of part) ->
  settled BLOCK_SIZE outdir max_size w1 part
  /\ forall q, settled BLOCK_SIZE outdir max_size w q ->
               settled BLOCK_SIZE outdir max_size w1 q.
Proof.
  unfold dump_fresh. intros Hrun Hshort.
  destruct (dump_partition _ _ _ batch w) as [r w'] eqn:Hexec.
  injection Hrun as -> -> _.
  destruct (contract _ _ _ _ _ _ Hexec) as (data' & Hfs & Hlen).
  split.
  - right. exists data'. rewrite Hfs, lookup_insert_eq. split; [done | lia].
  - intros q [Hlarge | (data & Hfile & Hsize)]; [left; exact Hlarge |].
    right. rewrite Hfs.
    destruct (decide (out_path outdir part = out_path outdir q)) as [Heq | Hne].
    + exists data'. rewrite Heq, lookup_insert_eq. split; [done |].
      rewrite <- Heq in Hfile. specialize (Hshort data Hfile). lia.
    + exists data. rewrite lookup_insert_ne by exact Hne. done.
Qed.

Lemma step_settles outdir max_size batch part w w1 e :
  step outdir max_size batch part w = (Ok tt, w1, e) ->
  settled BLOCK_SIZE outdir max_size w1 part
  /\ forall q, settled BLOCK_SIZE outdir max_size w q ->
               settled BLOCK_SIZE outdir max_size w1 q.
Proof.
  rewrite loop_body_cases.
  destruct (too_large max_size part) eqn:Hlarge.
  { intros [= <- _]. split; [left; exact Hlarge | tauto]. }
  destruct (fs w !! out_path outdir part) as [[data | err] |] eqn:Hfile.
  - rewrite Z.gtb_ltb.
    destruct (Z.ltb_spec (size_of part) (Z.of_nat (length data)))
      as [Hlt | Hge].
    { intros [= <- _]. split; [| tauto].
      right. exists data. split; [exact Hfile | lia]. }
    destruct (Z.eqb_spec (Z.of_nat (length data)) (size_of part))
      as [Heq | Hne].
    { intros [= <- _]. split; [| tauto].
      right. exists data. split; [exact Hfile | lia]. }
    intros Hrun. apply (fresh_settles _ _ _ _ _ _ _ Hrun).
    intros data0. rewrite Hfile. intros [= <-]. lia.
  - intros Hrun. apply (fresh_settles _ _ _ _ _ _ _ Hrun).
    intros data0. rewrite Hfile. discriminate.
  - intros Hrun. apply (fresh_settles _ _ _ _ _ _ _ Hrun).
    intros data0. rewrite Hfile. discriminate.
Qed.

Lemma run_settles outdir max_size batch table :
  forall w w1 e,
    run outdir max_size batch table w = (Ok tt, w1, e) ->
    Forall (settled BLOCK_SIZE outdir max_size w1) table
    /\ forall q, settled BLOCK_SIZE outdir max_size w q ->
                 settled BLOCK_SIZE outdir max_size w1 q.
Proof.
  induction table as [| part rest IH]; intros w w1 e.
  - intros [= <- _]. split; [constructor | tauto].
  - rewrite dump_partitions_cons.
    destruct (step outdir max_size batch part w) as [[[[] | x] w'] e']
      eqn:Hstep; [| discriminate].
    destruct (run outdir max_size batch rest w') as [[r w''] e''] eqn:Hrest.
    intros [= -> -> _].
    destruct (step_settles _ _ _ _ _ _ _ Hstep) as [Hpart Hkeep].
    destruct (IH _ _ _ Hrest) as [Hall Hkeep'].
    split; [constructor; auto | auto].
Qed.

End Completed.

(** C6. With an executor whose returning transfers have written the whole
    file, a run that returned is followed by an idle run: from the state
    the first run left, the second run over the same table, ceiling and
    output directory returns with that state unchanged (no read on the
    device channel, no file changed), reports no dump, and does so
    whatever the executor would have done, since it is never called. *)
Theorem C6_second_run_idle outdir max_size batch batch' table w w1 e1 :
  completes_transfers dump_partition ->
  run outdir max_size batch table w = (Ok tt, w1, e1) ->
  exists e2,
    Forall reports_no_dump e2
    /\ forall exec,
         dump_partitions BLOCK_SIZE exec outdir max_size batch' table w1
         = (Ok tt, w1, e2).
Proof.
  intros Hcontract Hfirst.
  apply settled_run.
  exact (proj1 (run_settles Hcontract _ _ _ _ _ _ _ Hfirst)).
Qed.

End TwoRuns.

(** ** Byte ranges and the ceiling of the command line *)

(** C3. Whenever an iteration dumps, the executor is called with offset
    [first_lba * BLOCK_SIZE] and length
    [(last_lba + 1 - first_lba) * BLOCK_SIZE]; for the descriptor
    "recovery" with LBAs 100 to 199, blocks of 512 bytes, no ceiling and no
    existing file, the run is the one call of the executor with offset
    51200 and length 51200. *)
Theorem C3_byte_range :
  (forall BLOCK_SIZE exec outdir max_size batch part w,
     step_decision (loop_body BLOCK_SIZE exec outdir max_size batch part w)
     = Some dumped ->
     loop_body BLOCK_SIZE exec outdir max_size batch part w
     = (let '(r, w1) :=
          exec (out_path outdir part) (first_lba part * BLOCK_SIZE)
            ((last_lba part + 1 - first_lba part) * BLOCK_SIZE) batch w in
        (r, w1, [dumping_report BLOCK_SIZE outdir batch part])))
  /\ (forall exec outdir batch idx w,
        fs w !! path_join outdir "recovery.bin" = None ->
        dump_partitions 512 exec outdir 0 batch
          [{| index := idx; name := "recovery";
              first_lba := 100; last_lba := 199 |}] w
        = (let '(r, w1) :=
             exec (path_join outdir "recovery.bin") 51200 51200 batch w in
           (r, w1,
            [Report (reporter batch LoggerInfo)
               (Dumping ("/dev/mmcblk0p" +:+ pretty idx) "recovery"
                  (path_join outdir "recovery.bin") 51200)]))).
Proof.
  split.
  - intros BLOCK_SIZE exec outdir max_size batch part w.
    rewrite step_decision_cases, loop_body_cases.
    destruct (exceeds_ceiling BLOCK_SIZE max_size part); [discriminate |].
    destruct (fs w !! out_path outdir part) as [[data | e] |];
      try reflexivity.
    destruct (Z.of_nat (length data) >? part_size BLOCK_SIZE part);
      [discriminate |].
    destruct (Z.of_nat (length data) =? part_size BLOCK_SIZE part);
      [discriminate | reflexivity].
  - intros exec outdir batch idx w Hmissing.
    rewrite dump_partitions_cons, loop_body_cases.
    change (exceeds_ceiling 512 0 _) with false.
    change (out_path outdir _) with (path_join outdir "recovery.bin").
    cbv iota. rewrite Hmissing. unfold dump_fresh.
    change (out_path outdir _) with (path_join outdir "recovery.bin").
    change (part_offset 512 _) with 51200.
    change (part_size 512 _) with 51200.
    destruct (exec (path_join outdir "recovery.bin") 51200 51200 batch w)
      as [[[] | x] w1]; reflexivity.
Qed.




(** ** The executor of the specification *)

Lemma dump_partition_model_completes disk :
  completes_transfers (dump_partition_model disk).
Proof.
  intros local_path offset len batch w w1. unfold dump_partition_model.
  assert (Hgo :
    (if (0 <=? offset)
        && (Z.of_nat (length (device_data disk offset len)) =? len)
     then (Ok tt,
           {| fs := <[local_path := File (device_data disk offset len)]> (fs w);
              reads := reads w ++ [(offset, len)] |})
     else (Raise TransportError,
           {| fs := <[local_path := File (device_data disk offset len)]> (fs w);
              reads := reads w ++ [(offset, len)] |}))
    = (Ok tt, w1) ->
    exists data,
      fs w1 = <[local_path := File data]> (fs w)
      /\ Z.of_nat (length data) = len).
  { destruct (0 <=? offset); [| discriminate].
    destruct (Z.eqb_spec (Z.of_nat (length (device_data disk offset len))) len)
      as [Hlen | Hlen]; [| discriminate].
    intros [= <-]. eexists. split; [reflexivity | exact Hlen]. }
  destruct (fs w !! local_path) as [[data | e] |];
    [exact Hgo | discriminate | exact Hgo].
Qed.

Lemma dump_partition_model_batch_blind disk :
  batch_blind (dump_partition_model disk).
Proof. intros local_path offset len b1 b2 w. reflexivity. Qed.

(** A transfer within the device replaces whatever the destination held by
    the bytes of the range, from the first byte on. *)
Lemma dump_partition_model_overwrites disk local_path offset len batch w old :
  fs w !! local_path = Some (File old) ->
  0 <= offset -> 0 <= len -> offset + len <= Z.of_nat (length disk) ->
  dump_partition_model disk local_path offset len batch w
  = (Ok tt,
     {| fs := <[local_path :=
                  File (take (Z.to_nat len) (drop (Z.to_nat offset) disk))]>
                (fs w);
        reads := reads w ++ [(offset, len)] |}).
Proof.
  intros Hold Hoff Hlen Hrange. unfold dump_partition_model, device_data.
  rewrite Hold.
  destruct (Z.ltb_spec offset 0); [lia |].
  destruct (Z.ltb_spec len 0); [lia |]. cbv [orb].
  destruct (Z.leb_spec 0 offset); [| lia]. cbv [andb].
  rewrite length_take, length_drop.
  destruct (Z.eqb_spec
              (Z.of_nat (Z.to_nat len `min` (length disk - Z.to_nat offset)))
              len); [reflexivity | lia].
Qed.

(** ** The theorems at sample inputs *)

(** "recovery" of 51200 bytes with no file yet: the fresh dump. *)
Lemma C1_reconcile_by_size_witness :
  loop_body 512 (dump_partition_model sample_disk) "out" 0 false recovery
    no_files
  = dump_fresh 512 (dump_partition_model sample_disk) "out" false recovery
      no_files.
Proof.
  exact (C1_reconcile_by_size 512 (dump_partition_model sample_disk) "out" 0
           false recovery no_files 0
           ltac:(simpl; lia) ltac:(lia) eq_refl eq_refl).
Defined.

(** "recovery" under a ceiling of 49 KiB is skipped. *)
Lemma C2_ceiling_skip_witness :
  loop_body 512 (dump_partition_model sample_disk) "out" 50176 false recovery
    no_files
  = (Ok tt, no_files, [large_report 512 false recovery]).
Proof.
  apply (proj1 (proj2 (C2_ceiling_skip 512 (dump_partition_model sample_disk)
                         "out" 50176 false recovery no_files))).
  split; [lia | vm_compute; reflexivity].
Defined.

Lemma C3_byte_range_witness :
  dump_partitions 512 (dump_partition_model sample_disk) "out" 0 true
    [recovery] no_files
  = (let '(r, w1) :=
       dump_partition_model sample_disk "out/recovery.bin" 51200 51200 true
         no_files in
     (r, w1,
      [Report Stdout
         (Dumping "/dev/mmcblk0p7" "recovery" "out/recovery.bin" 51200)])).
Proof.
  exact (proj2 C3_byte_range (dump_partition_model sample_disk) "out" true 7
           no_files eq_refl).
Defined.

(** A path that cannot be searched is dumped like a missing file. *)
Lemma C4_probe_error_swallowed_witness :
  loop_body 512 (dump_partition_model sample_disk) "out" 0 false recovery
    (with_file "out/recovery.bin" (Unreachable EACCES))
  = dump_fresh 512 (dump_partition_model sample_disk) "out" false recovery
      (with_file "out/recovery.bin" (Unreachable EACCES)).
Proof.
  exact (C4_probe_error_swallowed 512 (dump_partition_model sample_disk)
           "out" 0 false recovery
           (with_file "out/recovery.bin" (Unreachable EACCES)) EACCES
           eq_refl eq_refl).
Defined.

(** The size probe fails with [EACCES], and the iteration reports the dump
    and calls the executor instead of raising the error of the probe. *)
Lemma C4_counterexample :
  ~ (forall e, e <> ENOENT ->
       let w := with_file "out/recovery.bin" (Unreachable e) in
       getsize (out_path "out" recovery) w = (Raise (OSError e), w, []) ->
       loop_body 512 (dump_partition_model sample_disk) "out" 0 false
         recovery w
       = (Raise (OSError e), w, [])).
Proof.
  intros Hclaim.
  specialize (Hclaim EACCES ltac:(discriminate) eq_refl).
  vm_compute in Hclaim. discriminate Hclaim.
Qed.

Lemma C5_inconsistent_descriptor_witness :
  part_size 512 inverted <= 0
  /\ loop_body 512 (dump_partition_model sample_disk) "out" 0 false inverted
       no_files
     = dump_fresh 512 (dump_partition_model sample_disk) "out" false inverted
         no_files.
Proof.
  exact (C5_inconsistent_descriptor 512 (dump_partition_model sample_disk)
           "out" 0 false inverted no_files
           ltac:(simpl; lia) ltac:(lia) ltac:(lia)).
Defined.

(** The run over the inverted descriptor, an empty "bad.bin" in place,
    returns normally. *)
Lemma C5_counterexample :
  ~ (last_lba inverted < first_lba inverted ->
     run_fails
       (dump_partitions 512 (dump_partition_model sample_disk) "out" 0 false
          [inverted] (with_file "out/bad.bin" (File [])))).
Proof.
  intros Hclaim. exact (Hclaim ltac:(simpl; lia)).
Qed.

Example inverted_run_reports :
  map render
    (snd (dump_partitions 512 (dump_partition_model sample_disk) "out" 0
            false [inverted] (with_file "out/bad.bin" (File []))))
  = ["out/bad.bin: unexpected size 0K, larger than -49K"].
Proof. vm_compute. reflexivity. Qed.

(** A first run that dumps "a" (8 bytes at offset 4), then a second run. *)
Lemma C6_second_run_idle_witness :
  let w1 := {| fs := {[ "o/a.bin" := File (zeros 8) ]};
               reads := [(4, 8)] |} in
  exists e2,
    Forall reports_no_dump e2
    /\ forall exec,
         dump_partitions 4 exec "o" 0 true [small] w1 = (Ok tt, w1, e2).
Proof.
  exact (C6_second_run_idle 4 (dump_partition_model sample_disk) "o" 0 false
           true [small] no_files _ _
           (dump_partition_model_completes sample_disk) eq_refl).
Defined.

(** "recovery.bin" of 60000 bytes against 51200: left alone, reported. *)
Lemma C7_oversized_left_alone_witness :
  let w := with_file "out/recovery.bin" (File (zeros (Z.to_nat 60000))) in
  loop_body 512 (dump_partition_model sample_disk) "out" 0 false recovery w
  = (Ok tt, w, [oversized_report 512 "out" false recovery 60000]).
Proof.
  exact (proj1
           (C7_oversized_left_alone 512 (dump_partition_model sample_disk)
              "out" 0 false recovery []
              (with_file "out/recovery.bin" (File (zeros (Z.to_nat 60000))))
              (zeros (Z.to_nat 60000))
              eq_refl eq_refl ltac:(vm_compute; reflexivity))).
Defined.

(** The same file under a ceiling of 49 KiB: the partition is skipped for
    its size before its file is looked at, and no warning is reported. *)
Lemma C7_counterexample :
  let w := with_file "out/recovery.bin" (File (zeros (Z.to_nat 60000))) in
  ~ (part_size 512 recovery < 60000 ->
     Exists (fun ev => decision_of (what ev) = Some abort_oversized)
       (snd (dump_partitions 512 (dump_partition_model sample_disk) "out"
               50176 false [recovery] w))).
Proof.
  intros w Hclaim.
  specialize (Hclaim ltac:(vm_compute; reflexivity)).
  vm_compute in Hclaim.
  inversion Hclaim as [ev l Hev | ev l Hrest]; [discriminate Hev |].
  inversion Hrest.
Qed.

(** The complete file under a ceiling of 49 KiB: the iteration ends at the
    ceiling test and its decision is the one of the ceiling, not the one
    of the complete file. *)
Lemma C8_counterexample :
  let w := with_file "out/recovery.bin" (File (zeros (Z.to_nat 51200))) in
  ~ (Z.of_nat (length (zeros (Z.to_nat 51200))) = part_size 512 recovery ->
     step_decision
       (loop_body 512 (dump_partition_model sample_disk) "out" 50176 false
          recovery w)
     = Some skip_complete).
Proof.
  intros w Hclaim.
  specialize (Hclaim ltac:(vm_compute; reflexivity)).
  vm_compute in Hclaim. discriminate Hclaim.
Qed.

(** "recovery.bin" of exactly 51200 bytes: nothing is read or written. *)
Lemma C8_complete_no_io_witness :
  let w := with_file "out/recovery.bin" (File (zeros (Z.to_nat 51200))) in
  loop_body 512 (dump_partition_model sample_disk) "out" 0 false recovery w
  = (Ok tt, w, [complete_report "out" false recovery]).
Proof.
  exact (proj1
           (C8_complete_no_io 512 (dump_partition_model sample_disk)
              "out" 0 false recovery []
              (with_file "out/recovery.bin" (File (zeros (Z.to_nat 51200))))
              (zeros (Z.to_nat 51200))
              eq_refl ltac:(vm_compute; reflexivity))).
Defined.

Lemma C9_batch_only_reporting_witness :
  let x1 := dump_partitions 4 (dump_partition_model sample_disk) "o" 0 true
              [small; recovery] no_files in
  let x2 := dump_partitions 4 (dump_partition_model sample_disk) "o" 0 false
              [small; recovery] no_files in
  fst x1 = fst x2 /\ map what (snd x1) = map what (snd x2).
Proof.
  exact (C9_batch_only_reporting 4 (dump_partition_model sample_disk) "o" 0
           [small; recovery] no_files true false
           (dump_partition_model_batch_blind sample_disk)).
Defined.


(** * Further properties of the driver *)

(** ** Sequencing and failures *)

Section Sequencing.

Variable BLOCK_SIZE : Z.
Variable dump_partition : string -> Z -> Z -> bool -> io -> result unit * io.

Local Abbreviation step := (loop_body BLOCK_SIZE dump_partition).
Local Abbreviation run := (dump_partitions BLOCK_SIZE dump_partition).
Local Abbreviation fresh := (dump_fresh BLOCK_SIZE dump_partition).
Local Abbreviation size_of := (part_size BLOCK_SIZE).
Local Abbreviation too_large := (exceeds_ceiling BLOCK_SIZE).

Lemma run_app outdir max_size batch table1 table2 w :
  run outdir max_size batch (table1 ++ table2) w
  = bind (run outdir max_size batch table1)
      (fun _ => run outdir max_size batch table2) w.
Proof.
  revert w. induction table1 as [| part rest IH]; intros w.
  - unfold bind. simpl.
    destruct (run outdir max_size batch table2 w) as [[r w1] e]. reflexivity.
  - change ((part :: rest) ++ table2) with (part :: (rest ++ table2)).
    unfold bind at 1. rewrite !dump_partitions_cons.
    destruct (step outdir max_size batch part w) as [[[[] | x] w1] e1];
      [| reflexivity].
    rewrite IH. unfold bind.
    destruct (run outdir max_size batch rest w1) as [[[[] | x] w2] e2];
      [| reflexivity].
    destruct (run outdir max_size batch table2 w2) as [[r w3] e3].
    rewrite app_assoc. reflexivity.
Qed.

(** X10. The run over a table in two pieces is the run over the first
    piece followed, if that returned, by the run over the second piece
    from the state the first left, the reports of the two in sequence. *)
Theorem dump_partitions_app outdir max_size batch table1 table2 w :
  run outdir max_size batch (table1 ++ table2) w
  = bind (run outdir max_size batch table1)
      (fun _ => run outdir max_size batch table2) w.
Proof. apply run_app. Qed.

(** X2. The driver raises nothing of its own: an iteration that raises
    has reported the dump and nothing else, and its exception and final
    state are those of the call of the executor on the whole range of the
    partition, from the state the iteration started in. *)
Theorem only_executor_raises outdir max_size batch part w x w1 e :
  step outdir max_size batch part w = (Raise x, w1, e) ->
  dump_partition (out_path outdir part) (part_offset BLOCK_SIZE part)
    (size_of part) batch w = (Raise x, w1)
  /\ e = [dumping_report BLOCK_SIZE outdir batch part].
Proof.
  rewrite loop_body_cases.
  assert (Hfresh : fresh outdir batch part w = (Raise x, w1, e) ->
    dump_partition (out_path outdir part) (part_offset BLOCK_SIZE part)
      (size_of part) batch w = (Raise x, w1)
    /\ e = [dumping_report BLOCK_SIZE outdir batch part]).
  { unfold dump_fresh.
    destruct (dump_partition _ _ _ batch w) as [r w'].
    intros [= -> -> <-]. split; reflexivity. }
  destruct (too_large max_size part); [discriminate |].
  destruct (fs w !! out_path outdir part) as [[data | err] |];
    try exact Hfresh.
  destruct (Z.of_nat (length data) >? size_of part); [discriminate |].
  destruct (Z.of_nat (length data) =? size_of part); [discriminate |].
  exact Hfresh.
Qed.

(** X1. The first iteration that raises ends [main]: the exception leaves
    [main] with the state and the reports up to that point, the partitions
    after it are not looked at, and "All finished" is not reported. *)
Theorem main_stops_at_first_failure a done part rest w w1 e1 x w2 e2 :
  run (arg_outdir a) (arg_max_size a * 1024) (arg_batch a) done w
  = (Ok tt, w1, e1) ->
  step (arg_outdir a) (arg_max_size a * 1024) (arg_batch a) part w1
  = (Raise x, w2, e2) ->
  main BLOCK_SIZE dump_partition a (done ++ part :: rest) w
  = (Raise x, w2, e1 ++ e2).
Proof.
  intros Hdone Hstep. unfold main, bind at 1.
  rewrite run_app. unfold bind.
  rewrite Hdone, dump_partitions_cons, Hstep. reflexivity.
Qed.

(** An iteration that reports no dump returns with the state it got. *)
Lemma step_without_dump outdir max_size batch part w :
  Forall reports_no_dump (snd (step outdir max_size batch part w)) ->
  exists ev, step outdir max_size batch part w = (Ok tt, w, [ev]).
Proof.
  rewrite loop_body_cases.
  assert (Hfresh :
    Forall reports_no_dump (snd (fresh outdir batch part w)) ->
    exists ev, fresh outdir batch part w = (Ok tt, w, [ev])).
  { unfold dump_fresh. destruct (dump_partition _ _ _ batch w) as [r w'].
    simpl. intros Hno. inversion Hno as [| ev l Hev _]. now elim Hev. }
  destruct (too_large max_size part); [eauto |].
  destruct (fs w !! out_path outdir part) as [[data | err] |];
    try exact Hfresh.
  destruct (Z.of_nat (length data) >? size_of part); [eauto |].
  destruct (Z.of_nat (length data) =? size_of part); [eauto |].
  exact Hfresh.
Qed.

(** X4. A run whose reports include no dump has returned normally and has
    left the files and the device channel exactly as they were. *)
Theorem no_dump_no_change outdir max_size batch table w :
  Forall reports_no_dump (snd (run outdir max_size batch table w)) ->
  fst (run outdir max_size batch table w) = (Ok tt, w).
Proof.
  induction table as [| part rest IH]; [reflexivity |].
  rewrite dump_partitions_cons.
  destruct (step outdir max_size batch part w) as [[r w1] e1] eqn:Hstep.
  assert (Hhead : Forall reports_no_dump e1 ->
                  exists ev, (r, w1, e1) = (Ok tt, w, [ev])).
  { intros Hno. rewrite <- Hstep. apply step_without_dump.
    rewrite Hstep. exact Hno. }
  destruct r as [[] | x].
  - destruct (run outdir max_size batch rest w1) as [[r2 w2] e2] eqn:Hrest.
    simpl. intros Hno. apply Forall_app in Hno as [Hno1 Hno2].
    destruct (Hhead Hno1) as (ev & [= -> ->]).
    rewrite Hrest in IH. exact (IH Hno2).
  - simpl. intros Hno. destruct (Hhead Hno) as (ev & [=]).
Qed.

Lemma step_reports_once outdir max_size batch part w :
  exists ev,
    snd (step outdir max_size batch part w) = [ev]
    /\ report_for BLOCK_SIZE outdir batch part ev.
Proof.
  rewrite loop_body_cases. unfold report_for.
  assert (Hfresh : exists ev,
    snd (fresh outdir batch part w) = [ev]
    /\ report_for BLOCK_SIZE outdir batch part ev).
  { unfold dump_fresh, report_for.
    destruct (dump_partition _ _ _ batch w) as [r w']. simpl. eauto 6. }
  destruct (too_large max_size part); [simpl; eauto |].
  destruct (fs w !! out_path outdir part) as [[data | err] |];
    try exact Hfresh.
  destruct (Z.of_nat (length data) >? size_of part); [simpl; eauto 6 |].
  destruct (Z.of_nat (length data) =? size_of part); [simpl; eauto 6 |].
  exact Hfresh.
Qed.

Lemma run_reports outdir max_size batch table w r w1 e :
  run outdir max_size batch table w = (r, w1, e) ->
  exists done,
    done `prefix_of` table
    /\ Forall2 (report_for BLOCK_SIZE outdir batch) done e
    /\ (r = Ok tt -> done = table).
Proof.
  revert w r w1 e. induction table as [| part rest IH]; intros w r w1 e.
  - intros [= <- <- <-]. exists [].
    split; [apply prefix_nil | split; [constructor | reflexivity]].
  - rewrite dump_partitions_cons.
    destruct (step_reports_once outdir max_size batch part w)
      as (ev & Hev & Hfor).
    destruct (step outdir max_size batch part w) as [[[[] | x] w'] e'].
    + simpl in Hev. subst e'.
      destruct (run outdir max_size batch rest w') as [[r2 w2] e2] eqn:Hrest.
      intros [= <- <- <-].
      destruct (IH _ _ _ _ Hrest) as (done & Hpre & Hall & Hok).
      exists (part :: done). split; [by apply prefix_cons |].
      split; [constructor; assumption |]. intros Hr. by rewrite (Hok Hr).
    + simpl in Hev. subst e'. intros [= <- <- <-].
      exists [part]. split; [apply prefix_cons, prefix_nil |].
      split; [constructor; [exact Hfor | constructor] | discriminate].
Qed.

(** X3. A run reports once per partition it gets to, in table order and
    each time about that partition: its reports match, one for one, a
    prefix of the table, and the whole table when the run returns. *)
Theorem one_report_per_partition outdir max_size batch table w r w1 e :
  run outdir max_size batch table w = (r, w1, e) ->
  exists done,
    done `prefix_of` table
    /\ Forall2 (report_for BLOCK_SIZE outdir batch) done e
    /\ (r = Ok tt -> done = table).
Proof. apply run_reports. Qed.

End Sequencing.

(** ** What a returning run does to the files *)

Section Files.

Variable BLOCK_SIZE : Z.
Variable dump_partition : string -> Z -> Z -> bool -> io -> result unit * io.
Hypothesis contract : completes_transfers dump_partition.

Local Abbreviation step := (loop_body BLOCK_SIZE dump_partition).
Local Abbreviation run := (dump_partitions BLOCK_SIZE dump_partition).
Local Abbreviation fresh := (dump_fresh BLOCK_SIZE dump_partition).
Local Abbreviation size_of := (part_size BLOCK_SIZE).
Local Abbreviation too_large := (exceeds_ceiling BLOCK_SIZE).

(** What a returning iteration did to the files: nothing, or the dump,
    which needed the file to be missing, unreadable or too short. *)
Lemma step_files outdir max_size batch part w w1 e :
  step outdir max_size batch part w = (Ok tt, w1, e) ->
  fs w1 = fs w
  \/ (too_large max_size part = false
      /\ (forall data, fs w !! out_path outdir part = Some (File data) ->
            Z.of_nat (length data) < size_of part)
      /\ exists data',
           fs w1 = <[out_path outdir part := File data']> (fs w)
           /\ Z.of_nat (length data') = size_of part).
Proof.
  rewrite loop_body_cases.
  assert (Hfresh : fresh outdir batch part w = (Ok tt, w1, e) ->
    exists data',
      fs w1 = <[out_path outdir part := File data']> (fs w)
      /\ Z.of_nat (length data') = size_of part).
  { unfold dump_fresh.
    destruct (dump_partition _ _ _ batch w) as [r w'] eqn:Hexec.
    intros [= -> -> _]. exact (contract _ _ _ _ _ _ Hexec). }
  destruct (too_large max_size part); [intros [= <- _]; by left |].
  destruct (fs w !! out_path outdir part) as [[data | err] |] eqn:Hfile.
  - rewrite Z.gtb_ltb.
    destruct (Z.ltb_spec (size_of part) (Z.of_nat (length data)));
      [intros [= <- _]; by left |].
    destruct (Z.eqb_spec (Z.of_nat (length data)) (size_of part));
      [intros [= <- _]; by left |].
    intros Hrun. right. split; [done |]. split; [| exact (Hfresh Hrun)].
    intros data0 [= <-]. lia.
  - intros Hrun. right. split; [done |]. split; [| exact (Hfresh Hrun)].
    discriminate.
  - intros Hrun. right. split; [done |]. split; [| exact (Hfresh Hrun)].
    discriminate.
Qed.

Lemma run_frame outdir max_size batch table w w1 e path :
  run outdir max_size batch table w = (Ok tt, w1, e) ->
  path ∉ map (out_path outdir) table ->
  fs w1 !! path = fs w !! path.
Proof.
  revert w w1 e. induction table as [| part rest IH]; intros w w1 e.
  - intros [= <- _] _. reflexivity.
  - rewrite dump_partitions_cons.
    destruct (step outdir max_size batch part w) as [[[[] | x] w'] e']
      eqn:Hstep; [| discriminate].
    destruct (run outdir max_size batch rest w') as [[r w2] e2] eqn:Hrest.
    intros [= -> -> _] Hout. rewrite fmap_cons, not_elem_of_cons in Hout.
    destruct Hout as [Hne Hout].
    rewrite (IH _ _ _ Hrest Hout).
    destruct (step_files _ _ _ _ _ _ _ Hstep)
      as [-> | (_ & _ & data' & -> & _)]; [reflexivity |].
    by rewrite lookup_insert_ne.
Qed.

(** X5. A returning run changes no path other than the output paths of
    the partitions of its table. *)
Theorem run_touches_only_out_paths outdir max_size batch table w w1 e path :
  run outdir max_size batch table w = (Ok tt, w1, e) ->
  path ∉ map (out_path outdir) table ->
  fs w1 !! path = fs w !! path.
Proof. apply run_frame. Qed.

(** X6. A returning run never shortens a file: a file that existed
    before the run exists after it and is at least as long. *)
Theorem files_never_shrink outdir max_size batch table w w1 e path data :
  dump_partitions BLOCK_SIZE dump_partition outdir max_size batch table w
  = (Ok tt, w1, e) ->
  fs w !! path = Some (File data) ->
  exists data',
    fs w1 !! path = Some (File data')
    /\ Z.of_nat (length data) <= Z.of_nat (length data').
Proof.
  revert w w1 e data. induction table as [| part rest IH]; intros w w1 e data.
  - intros [= <- _] Hfile. exists data. split; [done | lia].
  - rewrite dump_partitions_cons.
    destruct (step outdir max_size batch part w) as [[[[] | x] w'] e']
      eqn:Hstep; [| discriminate].
    destruct (run outdir max_size batch rest w') as [[r w2] e2] eqn:Hrest.
    intros [= -> -> _] Hfile.
    assert (Hmid : exists data0,
      fs w' !! path = Some (File data0)
      /\ Z.of_nat (length data) <= Z.of_nat (length data0)).
    { destruct (step_files _ _ _ _ _ _ _ Hstep)
        as [-> | (_ & Hshort & data' & -> & Hlen)].
      - exists data. split; [done | lia].
      - destruct (decide (out_path outdir part = path)) as [<- | Hne].
        + exists data'. rewrite lookup_insert_eq. split; [done |].
          specialize (Hshort _ Hfile). lia.
        + exists data. rewrite lookup_insert_ne by done. split; [done | lia]. }
    destruct Hmid as (data0 & Hfile0 & Hle0).
    destruct (IH _ _ _ _ Hrest Hfile0) as (data' & Hfile' & Hle').
    exists data'. split; [done | lia].
Qed.

(** X7. When the partitions of the table have distinct output paths, a
    returning run leaves, for every partition within the ceiling whose
    file was missing, unreadable or too short, a file of exactly the byte
    length of the partition. *)
Theorem dumped_files_have_partition_size outdir max_size batch table w w1 e
    part :
  NoDup (map (out_path outdir) table) ->
  run outdir max_size batch table w = (Ok tt, w1, e) ->
  part ∈ table ->
  too_large max_size part = false ->
  (forall data, fs w !! out_path outdir part = Some (File data) ->
     Z.of_nat (length data) < size_of part) ->
  exists data',
    fs w1 !! out_path outdir part = Some (File data')
    /\ Z.of_nat (length data') = size_of part.
Proof.
  revert w w1 e. induction table as [| q rest IH]; intros w w1 e Hdup.
  - intros _ Hin. by apply elem_of_nil in Hin.
  - rewrite fmap_cons, NoDup_cons in Hdup. destruct Hdup as [Hq Hdup].
    rewrite dump_partitions_cons.
    destruct (step outdir max_size batch q w) as [[[[] | x] w'] e']
      eqn:Hstep; [| discriminate].
    destruct (run outdir max_size batch rest w') as [[r w2] e2] eqn:Hrest.
    intros [= -> -> _] Hin Hplan Hshort.
    apply elem_of_cons in Hin as [-> | Hin].
    + rewrite (run_frame _ _ _ _ _ _ _ _ Hrest Hq).
      rewrite loop_body_cases, Hplan in Hstep.
      assert (Hfresh : fresh outdir batch q w = (Ok tt, w', e')).
      { destruct (fs w !! out_path outdir q) as [[data | err] |] eqn:Hfile;
          try exact Hstep.
        specialize (Hshort data eq_refl). rewrite Z.gtb_ltb in Hstep.
        destruct (Z.ltb_spec (size_of q) (Z.of_nat (length data))); [lia |].
        destruct (Z.eqb_spec (Z.of_nat (length data)) (size_of q)); [lia |].
        exact Hstep. }
      unfold dump_fresh in Hfresh.
      destruct (dump_partition _ _ _ batch w) as [r0 w0] eqn:Hexec.
      injection Hfresh as -> -> _.
      destruct (contract _ _ _ _ _ _ Hexec) as (data' & Hfs & Hlen).
      exists data'. rewrite Hfs, lookup_insert_eq. done.
    + apply (IH _ _ _ Hdup Hrest Hin Hplan).
      assert (Hne : out_path outdir q <> out_path outdir part).
      { intros Heq. apply Hq. rewrite Heq.
        apply list_elem_of_fmap. by exists part. }
      destruct (step_files _ _ _ _ _ _ _ Hstep)
        as [-> | (_ & _ & data' & -> & _)]; [exact Hshort |].
      intros data. rewrite lookup_insert_ne by done. apply Hshort.
Qed.

End Files.

(** ** Output paths *)

Lemma string_length_app (s t : string) :
  String.length (s +:+ t) = (String.length s + String.length t)%nat.
Proof. induction s as [| c s IH]; simpl; [reflexivity | by rewrite IH]. Qed.

Lemma string_app_inv_tail (s1 s2 t : string) :
  s1 +:+ t = s2 +:+ t -> s1 = s2.
Proof.
  revert s2. induction s1 as [| c s1 IH]; intros [| d s2].
  - reflexivity.
  - intros Heq. apply (f_equal String.length) in Heq.
    rewrite (string_length_app EmptyString t),
      (string_length_app (String d s2) t) in Heq.
    simpl in Heq. exfalso. lia.
  - intros Heq. apply (f_equal String.length) in Heq.
    rewrite (string_length_app EmptyString t),
      (string_length_app (String c s1) t) in Heq.
    simpl in Heq. exfalso. lia.
  - intros [= -> Heq]. by rewrite (IH _ Heq).
Qed.

Lemma startswith_sep_bin (n : string) :
  startswith_sep n = false -> startswith_sep (n +:+ ".bin") = false.
Proof. destruct n as [| c n]; [reflexivity | exact id]. Qed.

(** Two names that are not absolute paths and share an output path under
    one output directory are the same name. *)
Lemma out_path_inj outdir n1 n2 :
  startswith_sep n1 = false -> startswith_sep n2 = false ->
  path_join outdir (n1 +:+ ".bin") = path_join outdir (n2 +:+ ".bin") ->
  n1 = n2.
Proof.
  intros H1 H2. unfold path_join.
  rewrite (startswith_sep_bin _ H1), (startswith_sep_bin _ H2).
  destruct (String.eqb outdir "" || endswith_sep outdir).
  - intros Heq%(inj (String.app outdir)).
    exact (string_app_inv_tail _ _ _ Heq).
  - intros Heq%(inj (String.app outdir))%(inj (String.app "/")).
    exact (string_app_inv_tail _ _ _ Heq).
Qed.

(** X8. Partitions with distinct names, none of them starting with "/",
    have distinct output path strings under any output directory.  (Two
    distinct strings can still name one file, as "a" and "./a" do; the
    file map does not resolve paths.) *)
Theorem distinct_names_distinct_paths outdir (table : list partition) :
  Forall (fun part => startswith_sep (name part) = false) table ->
  NoDup (map name table) ->
  NoDup (map (out_path outdir) table).
Proof.
  intros Hrel Hdup.
  change (map (out_path outdir) table)
    with ((fun part => path_join outdir (name part +:+ ".bin")) <$> table).
  rewrite (list_fmap_compose name (fun n => path_join outdir (n +:+ ".bin"))).
  apply NoDup_fmap_2_strong; [| exact Hdup].
  intros n1 n2 (p1 & -> & Hp1)%list_elem_of_fmap
    (p2 & -> & Hp2)%list_elem_of_fmap.
  rewrite Forall_forall in Hrel.
  apply out_path_inj; by apply Hrel.
Qed.

(** A name that starts with "/" leaves the output directory, and can then
    get the very path string of a relative name. *)
Example absolute_name_collides :
  out_path "/" {| index := 1; name := "/x"; first_lba := 0; last_lba := 0 |}
  = out_path "/" {| index := 2; name := "x"; first_lba := 0; last_lba := 0 |}.
Proof. reflexivity. Qed.

(** ** The ceiling and the reports of [main] *)

Section Main.

Variable BLOCK_SIZE : Z.
Variable dump_partition : string -> Z -> Z -> bool -> io -> result unit * io.

Lemma all_large_run outdir max_size batch table w :
  Forall (fun part => exceeds_ceiling BLOCK_SIZE max_size part = true) table ->
  dump_partitions BLOCK_SIZE dump_partition outdir max_size batch table w
  = (Ok tt, w, map (large_report BLOCK_SIZE batch) table).
Proof.
  induction 1 as [| part rest Hpart _ IH]; [reflexivity |].
  rewrite dump_partitions_cons, loop_body_cases, Hpart, IH. reflexivity.
Qed.

(** X9. A negative [--max-size] is a ceiling, not "no ceiling": [main]
    then skips every partition of non-negative length as too large, leaves
    files and device alone, never calls the executor, and finishes. *)
Theorem negative_ceiling_skips_all a table w :
  arg_max_size a < 0 ->
  Forall (fun part => 0 <= part_size BLOCK_SIZE part) table ->
  main BLOCK_SIZE dump_partition a table w
  = (Ok tt, w,
     map (large_report BLOCK_SIZE (arg_batch a)) table
     ++ [Report (reporter (arg_batch a) LoggerInfo) AllFinished]).
Proof.
  intros Hneg Hsizes. unfold main, bind.
  rewrite all_large_run; [reflexivity |].
  eapply Forall_impl; [exact Hsizes |].
  intros part Hsize. cbv beta in Hsize. apply exceeds_ceiling_spec. lia.
Qed.

Lemma report_for_marked outdir batch part ev :
  report_for BLOCK_SIZE outdir batch part ev ->
  if batch
  then where_ ev = Stdout /\ exists text, render ev = String "#" text
  else where_ ev <> Stdout.
Proof.
  intros [-> | [(s & ->) | [-> | ->]]]; destruct batch; simpl;
    try discriminate; (split; [reflexivity | eexists; reflexivity]).
Qed.

(** X11. In batch mode every report of [main] goes to the standard output
    and its line starts with "#"; without batch mode no report goes to
    the standard output. *)
Theorem batch_reports_marked a table w ev :
  ev ∈ snd (main BLOCK_SIZE dump_partition a table w) ->
  if arg_batch a
  then where_ ev = Stdout /\ exists text, render ev = String "#" text
  else where_ ev <> Stdout.
Proof.
  unfold main, bind.
  destruct (dump_partitions BLOCK_SIZE dump_partition (arg_outdir a)
              (arg_max_size a * 1024) (arg_batch a) table w)
    as [[r w1] e] eqn:Hrun.
  destruct (run_reports _ _ _ _ _ _ _ _ _ _ Hrun)
    as (done & _ & Hall & _).
  assert (Hdriver : ev ∈ e ->
    if arg_batch a
    then where_ ev = Stdout /\ exists text, render ev = String "#" text
    else where_ ev <> Stdout).
  { intros Hin. clear Hrun. induction Hall as [| part ev' done' e' Hfor _ IH].
    - by apply elem_of_nil in Hin.
    - apply elem_of_cons in Hin as [-> | Hin]; [| exact (IH Hin)].
      exact (report_for_marked _ _ _ _ Hfor). }
  destruct r as [[] | x]; simpl; [| exact Hdriver].
  rewrite elem_of_app, list_elem_of_singleton.
  intros [Hin | ->]; [exact (Hdriver Hin) |].
  destruct (arg_batch a); simpl;
    [split; [reflexivity | eexists; reflexivity] | discriminate].
Qed.

End Main.

(** ** The further properties at sample inputs *)

(** "recovery" on a device of 16 bytes: the read fails. *)
Lemma only_executor_raises_witness :
  dump_partition_model sample_disk "out/recovery.bin" 51200 51200 false
    no_files
  = (Raise TransportError,
     {| fs := {[ "out/recovery.bin" := File [] ]};
        reads := [(51200, 51200)] |})
  /\ [dumping_report 512 "out" false recovery]
     = [dumping_report 512 "out" false recovery].
Proof.
  exact (only_executor_raises 512 (dump_partition_model sample_disk) "out" 0
           false recovery no_files _ _ _ eq_refl).
Defined.

(** "a" is dumped, "recovery" fails, the second "a" is never reached. *)
Lemma main_stops_at_first_failure_witness :
  main 4 (dump_partition_model sample_disk)
    {| arg_outdir := "o"; arg_max_size := 0; arg_batch := true |}
    ([small] ++ recovery :: [small]) no_files
  = (Raise TransportError,
     {| fs := {[ "o/a.bin" := File (zeros 8);
                 "o/recovery.bin" := File [] ]};
        reads := [(4, 8); (400, 400)] |},
     [dumping_report 4 "o" true small]
     ++ [dumping_report 4 "o" true recovery]).
Proof.
  exact (main_stops_at_first_failure 4 (dump_partition_model sample_disk)
           {| arg_outdir := "o"; arg_max_size := 0; arg_batch := true |}
           [small] recovery [small] no_files _ _ _ _ _ eq_refl eq_refl).
Defined.

Lemma no_dump_no_change_witness :
  fst (dump_partitions 512 (dump_partition_model sample_disk) "out" 50176
         false [recovery] no_files)
  = (Ok tt, no_files).
Proof.
  apply (no_dump_no_change 512 (dump_partition_model sample_disk) "out" 50176
           false [recovery] no_files).
  simpl. repeat constructor. discriminate.
Defined.

Lemma one_report_per_partition_witness :
  exists done,
    done `prefix_of` [small; recovery; small]
    /\ Forall2 (report_for 4 "o" true) done
         [dumping_report 4 "o" true small; dumping_report 4 "o" true recovery]
    /\ (Raise TransportError = Ok tt -> done = [small; recovery; small]).
Proof.
  exact (one_report_per_partition 4 (dump_partition_model sample_disk) "o" 0
           true [small; recovery; small] no_files _ _ _ eq_refl).
Defined.

Lemma run_touches_only_out_paths_witness :
  fs {| fs := <[ "o/a.bin" := File (zeros 8) ]>
                (fs (with_file "notes.txt" (File [])));
        reads := [(4, 8)] |} !! "notes.txt"
  = fs (with_file "notes.txt" (File [])) !! "notes.txt".
Proof.
  apply (run_touches_only_out_paths 4 (dump_partition_model sample_disk)
           (dump_partition_model_completes sample_disk) "o" 0 false [small]
           (with_file "notes.txt" (File [])) _ _ "notes.txt" eq_refl).
  intros Hin. apply list_elem_of_singleton in Hin. discriminate Hin.
Defined.

(** A file of 3 bytes where 8 are expected is replaced by one of 8. *)
Lemma files_never_shrink_witness :
  exists data',
    fs {| fs := <[ "o/a.bin" := File (zeros 8) ]>
                  (fs (with_file "o/a.bin" (File (zeros 3))));
          reads := [(4, 8)] |} !! "o/a.bin" = Some (File data')
    /\ Z.of_nat (length (zeros 3)) <= Z.of_nat (length data').
Proof.
  exact (files_never_shrink 4 (dump_partition_model sample_disk)
           (dump_partition_model_completes sample_disk) "o" 0 false [small]
           (with_file "o/a.bin" (File (zeros 3))) _ _ "o/a.bin" (zeros 3)
           eq_refl eq_refl).
Defined.

Lemma dumped_files_have_partition_size_witness :
  exists data',
    fs {| fs := {[ "o/a.bin" := File (zeros 8) ]}; reads := [(4, 8)] |}
      !! out_path "o" small = Some (File data')
    /\ Z.of_nat (length data') = part_size 4 small.
Proof.
  eapply (dumped_files_have_partition_size 4
            (dump_partition_model sample_disk)
            (dump_partition_model_completes sample_disk) "o" 0 false [small]
            no_files _ _ small).
  - apply NoDup_singleton.
  - reflexivity.
  - apply list_elem_of_singleton. reflexivity.
  - reflexivity.
  - intros data. discriminate.
Defined.

Lemma distinct_names_distinct_paths_witness :
  NoDup (map (out_path "out") [small; recovery]).
Proof.
  apply (distinct_names_distinct_paths "out" [small; recovery]).
  - repeat constructor.
  - apply NoDup_cons. split; [| apply NoDup_singleton].
    intros Hin. apply list_elem_of_singleton in Hin. discriminate Hin.
Defined.

(** [--max-size -1]: nothing is dumped. *)
Lemma negative_ceiling_skips_all_witness :
  main 512 (dump_partition_model sample_disk)
    {| arg_outdir := "out"; arg_max_size := -1; arg_batch := true |}
    [recovery] no_files
  = (Ok tt, no_files,
     map (large_report 512 true) [recovery] ++ [Report Stdout AllFinished]).
Proof.
  apply (negative_ceiling_skips_all 512 (dump_partition_model sample_disk)
           {| arg_outdir := "out"; arg_max_size := -1; arg_batch := true |}
           [recovery] no_files).
  - simpl. lia.
  - repeat constructor. vm_compute. discriminate.
Defined.

Lemma batch_reports_marked_witness :
  where_ (large_report 512 true recovery) = Stdout
  /\ exists text, render (large_report 512 true recovery) = String "#" text.
Proof.
  apply (batch_reports_marked 512 (dump_partition_model sample_disk)
           {| arg_outdir := "out"; arg_max_size := -1; arg_batch := true |}
           [recovery] no_files (large_report 512 true recovery)).
  apply list_elem_of_here.
Defined.
